(** * PEWMA: a shallow embedding of [pewma.go]

    Probabilistic exponentially weighted moving average.  The Go package is
    embedded function by function:

    - [float64] (and [Value], a named [float64]) is Rocq's primitive binary64
      type, so every arithmetic operation rounds as the Go program does on a
      target that does not fuse multiply and add;
    - [int] is [Z] together with the 64-bit wrap-around of [GoInt];
    - [math.Exp] is not part of the package: it is a section variable, and the
      two special cases of its documentation that the proofs use are section
      hypotheses;
    - the identifier [adapt] read by [NewConfig] has no declaration in the
      package source: it is a section variable as well;
    - methods with a pointer receiver run in a small state-and-panic monad
      over the receiver, so that "does not modify the receiver" and "does not
      panic" are statements and not conventions;
    - a slice is modelled by the list of its elements; the backing array that
      [append] may share between the processors [Add] returns is not, every
      stream of ingestions here being one chain. *)

From Stdlib Require Import ZArith List String Bool Lia.
From Stdlib Require Import Uint63 Floats.
Import ListNotations.

Set Warnings "-inexact-float".

Local Open Scope Z_scope.

(** ** Go's [int] on a 64-bit target *)

Module GoInt.

Definition min_int : Z := - 2 ^ 63.
Definition max_int : Z := 2 ^ 63 - 1.

Definition in_range (z : Z) : Prop := min_int <= z <= max_int.

Definition wrap (z : Z) : Z := (z + 2 ^ 63) mod 2 ^ 64 - 2 ^ 63.

Definition add (a b : Z) : Z := wrap (a + b).
Definition sub (a b : Z) : Z := wrap (a - b).

(** Integer division truncates toward zero and panics on a zero divisor. *)
Definition quo (a b : Z) : option Z :=
  if b =? 0 then None else Some (wrap (Z.quot a b)).

(** The conversion [float64(z)] of an [int], rounding to nearest even. *)
Definition to_float64 (z : Z) : float :=
  if z =? min_int then (- 0x1p63)%float
  else if z <? 0 then (- PrimFloat.of_uint63 (Uint63.of_Z (- z)))%float
  else PrimFloat.of_uint63 (Uint63.of_Z z).

End GoInt.

(** ** A reference instance of [math.Exp]

    Used only to instantiate the section below at concrete inputs: it has the
    special cases of [math.Exp] and, elsewhere, a truncated series after range
    reduction. *)

Definition exp_series (y : float) : float :=
  (1 + y * (1 + y / 2 * (1 + y / 3 * (1 + y / 4 * (1 + y / 5 *
     (1 + y / 6 * (1 + y / 7 * (1 + y / 8))))))))%float.

Definition square_n (n : nat) (x : float) : float :=
  Nat.iter n (fun t => (t * t)%float) x.

Definition Exp_ref (x : float) : float :=
  if PrimFloat.is_nan x then PrimFloat.nan
  else if (x =? PrimFloat.neg_infinity)%float then PrimFloat.zero
  else if (x =? PrimFloat.infinity)%float then PrimFloat.infinity
  else square_n 10 (exp_series (x / 1024)%float).

(** ** Vocabulary for binary64 values

    [Prim2SF] maps a primitive float to its IEEE 754 description. *)

(** The least exponent of a binary64 mantissa. *)
Definition emin64 : Z := Eval compute in SpecFloat.emin prec emax.

(** A number that is neither a zero nor a NaN. *)
Definition nonzero_num (x : spec_float) : Prop :=
  match x with
  | S754_finite _ _ _ | S754_infinity _ => True
  | _ => False
  end.

(** A zero of either sign, or a NaN. *)
Definition zero_or_nan (x : spec_float) : Prop :=
  match x with
  | S754_zero _ | S754_nan => True
  | _ => False
  end.

(** A zero or a finite number: neither an infinity nor a NaN. *)
Definition finite_num (x : spec_float) : Prop :=
  match x with
  | S754_zero _ | S754_finite _ _ _ => True
  | _ => False
  end.

(** Anything but the negative zero. *)
Definition not_neg_zero (x : spec_float) : Prop := x <> S754_zero true.

(** The sign of a number is [s]; a NaN has no sign. *)
Definition has_sign (s : bool) (x : spec_float) : Prop :=
  match x with
  | S754_zero s' | S754_infinity s' | S754_finite s' _ _ => s' = s
  | S754_nan => True
  end.

(** The last [n] elements of a list, in their order. *)
Definition lastn {A : Type} (n : nat) (l : list A) : list A :=
  skipn (List.length l - n) l.

(** ** The package *)

(** [type Value float64] *)
Definition Value : Set := float.
Bind Scope float_scope with Value.

(** [math.Pi], rounded to [float64]. *)
Definition math_Pi : float := 0x1.921fb54442d18p+1%float.

(** [func (v Value) sqrt() float64] *)
Definition Value_sqrt (v : Value) : float := PrimFloat.sqrt v.

(** [func (v Value) square() Value] *)
Definition Value_square (v : Value) : Value := (v * v)%float.

(** [type Config struct] *)
Record Config : Set := mkConfig
  { trainingPeriod : Z;
    alpha0Weight : float;
    betaWeight : float }.

(** The zero value [Config{}]. *)
Definition Config_zero : Config := mkConfig 0 0%float 0%float.

(** Go's [error] interface value: [nil] or an error carrying a message. *)
Definition error : Set := option string.
Definition errors_New (msg : string) : error := Some msg.

(** [type factors struct] *)
Record factors : Set := mkFactors
  { s1 : Value;
    s2 : Value;
    stdDeviation : float }.

(** The zero value [factors{}]. *)
Definition factors_zero : factors := mkFactors 0%float 0%float 0%float.

(** [type PEWMA struct] *)
Record PEWMA : Set := mkPEWMA
  { captured : list Value;
    config : Config;
    pfactors : factors }.

(** [type Status int], with its three constants. *)
Inductive Status : Set := InTraining | InOrdinary | Outlier.

(** [len] of a slice, an [int]. *)
Definition len {A : Type} (l : list A) : Z := Z.of_nat (List.length l).

(** Statistics whose standard deviation is zero have a mean that is not NaN. *)
Definition mean_defined (f : factors) : Prop :=
  (stdDeviation f =? 0)%float = true -> is_nan (s1 f) = false.

(** A value that is finite and whose square does not overflow. *)
Definition regular (v : Value) : Prop :=
  is_finite v = true /\ is_finite (v * v) = true.

(** Statistics that a weight of 1 and a regular value leave as they are:
    neither moment is the negative zero, and the deviation is the one derived
    from the moments. *)
Definition steady (f : factors) : Prop :=
  not_neg_zero (Prim2SF (s1 f)) /\
  not_neg_zero (Prim2SF (s2 f)) /\
  stdDeviation f = PrimFloat.sqrt (s2 f - s1 f * s1 f).

(** The history [pushAndPop] returns for capacity [T], history [c] and new
    value [v], as a function of these three. *)
Definition window (T : Z) (c : list Value) (v : Value) : list Value :=
  if len (c ++ [v]) >? T then skipn 1 (c ++ [v]) else c ++ [v].

(** *** Methods with a pointer receiver

    A computation reads (and could write) the receiver and may panic. *)

Definition M (A : Type) : Type := PEWMA -> option (A * PEWMA).

Definition ret {A : Type} (a : A) : M A := fun p => Some (a, p).

Definition bind {A B : Type} (m : M A) (k : A -> M B) : M B :=
  fun p => match m p with
           | Some (a, p') => k a p'
           | None => None
           end.

(** Reading the receiver. *)
Definition get : M PEWMA := fun p => Some (p, p).

(** A partial step: [None] is a run-time panic. *)
Definition lift {A : Type} (o : option A) : M A :=
  fun p => match o with
           | Some a => Some (a, p)
           | None => None
           end.

Declare Scope go_scope.
Delimit Scope go_scope with go.
Notation "x <- m ;; k" := (bind m (fun x => k))
  (at level 61, m at next level, right associativity) : go_scope.

Section Package.

(** [math.Exp]. *)
Variable Exp : float -> float.

(** The identifier [adapt] of [NewConfig]. *)
Variable adapt : float.

(** [func NewConfig(t int, alpha0 float64, beta float64) (Config, error)] *)
Definition NewConfig (t : Z) (alpha0 beta : float) : Config * error :=
  if ((alpha0 <=? 0)%float || (1 <=? alpha0)%float)%bool then
    (Config_zero, errors_New "alpha0 weight is invalid")
  else if ((beta <? 0)%float || (1 <=? beta)%float)%bool then
    (Config_zero, errors_New "beta weight is invalid")
  else
    (mkConfig t adapt beta, None).

(** [func (f factors) zt(v Value) float64] *)
Definition factors_zt (f : factors) (v : Value) : float :=
  ((v - s1 f) / stdDeviation f)%float.

(** [func (f factors) pt(v Value) float64] *)
Definition factors_pt (f : factors) (v : Value) : float :=
  let zt := factors_zt f v in
  (Exp (- (zt * zt) / 2) / PrimFloat.sqrt (2 * math_Pi))%float.

(** [func (f factors) detectAnomaly(threshold float64, v Value) bool] *)
Definition factors_detectAnomaly (f : factors) (threshold : float)
    (v : Value) : bool :=
  (factors_pt f v <=? threshold)%float.

(** [func (f factors) New(alpha Value, v Value) factors] *)
Definition factors_New (f : factors) (alpha v : Value) : factors :=
  let s1' := (alpha * s1 f + (1 - alpha) * v)%float in
  let s2' := (alpha * s2 f + (1 - alpha) * Value_square v)%float in
  let stdDeviation' := Value_sqrt (s2' - Value_square s1')%float in
  mkFactors s1' s2' stdDeviation'.

(** [func New(config Config) *PEWMA] *)
Definition New (conf : Config) : PEWMA :=
  mkPEWMA [] conf factors_zero.

Local Open Scope go_scope.

(** [func (p *PEWMA) alpha(v Value) Value].  In [1 - 1.0/(l+1)] the
    constant [1.0] takes the type of [l+1], which is [int]. *)
Definition PEWMA_alpha (v : Value) : M Value :=
  p <- get ;;
  let conf := config p in
  let l := len (captured p) in
  if l <? trainingPeriod conf then
    q <- lift (GoInt.quo 1 (GoInt.add l 1)) ;;
    ret (GoInt.to_float64 (GoInt.sub 1 q))
  else
    let f := pfactors p in
    ret ((1 - betaWeight conf * factors_pt f v) * alpha0Weight conf)%float.

(** [func (p *PEWMA) Analyze(v Value, threshold float64) Status] *)
Definition PEWMA_Analyze (v : Value) (threshold : float) : M Status :=
  p <- get ;;
  let conf := config p in
  if len (captured p) <? trainingPeriod conf then ret InTraining
  else if factors_detectAnomaly (pfactors p) threshold v then ret Outlier
  else ret InOrdinary.

(** [func (p *PEWMA) pushAndPop(v Value) []Value] *)
Definition PEWMA_pushAndPop (v : Value) : M (list Value) :=
  p <- get ;;
  let newCaptured := captured p ++ [v] in
  if len newCaptured >? trainingPeriod (config p) then ret (skipn 1 newCaptured)
  else ret newCaptured.

(** [func (p *PEWMA) Add(v Value) *PEWMA] *)
Definition PEWMA_Add (v : Value) : M PEWMA :=
  alpha <- PEWMA_alpha v ;;
  p <- get ;;
  c <- PEWMA_pushAndPop v ;;
  ret (mkPEWMA c (config p) (factors_New (pfactors p) alpha v)).

(** *** Callers *)

(** One ingestion: the processor returned by [Add]. *)
Definition ingest (p : PEWMA) (v : Value) : option PEWMA :=
  option_map fst (PEWMA_Add v p).

(** A stream of ingestions, each on the processor the previous one
    returned. *)
Fixpoint ingestAll (p : PEWMA) (vs : list Value) : option PEWMA :=
  match vs with
  | [] => Some p
  | v :: vs' =>
      match ingest p v with
      | Some p' => ingestAll p' vs'
      | None => None
      end
  end.

(** One classification: the status [Analyze] returns. *)
Definition classify (p : PEWMA) (v : Value) (threshold : float)
    : option Status :=
  option_map fst (PEWMA_Analyze v threshold p).

End Package.

(** ** Facts of binary64 arithmetic

    Derived from the specification of the primitive operations. *)

Module SF.

Lemma shr_1_digits (r : shr_record) :
  0 <= shr_m r ->
  0 <= shr_m (shr_1 r) /\
  Zdigits2 (shr_m (shr_1 r)) = Z.max 0 (Zdigits2 (shr_m r) - 1).
Proof.
  destruct r as [m r s]; cbn [shr_m]; intros Hm.
  destruct m as [|p|p]; [cbn; lia| |lia].
  destruct p; cbn [shr_1 shr_m Zdigits2 digits2_pos]; lia.
Qed.

Lemma iter_shr_1_digits (p : positive) :
  forall r, 0 <= shr_m r ->
    0 <= shr_m (iter_pos shr_1 p r) /\
    Zdigits2 (shr_m (iter_pos shr_1 p r))
    = Z.max 0 (Zdigits2 (shr_m r) - Z.pos p).
Proof.
  induction p as [p IH|p IH|]; intros r Hr; simpl iter_pos.
  - destruct (shr_1_digits r Hr) as [H0 H1].
    destruct (IH _ H0) as [H2 H3].
    destruct (IH _ H2) as [H4 H5].
    split; [exact H4|]. rewrite H5, H3, H1. lia.
  - destruct (IH _ Hr) as [H2 H3].
    destruct (IH _ H2) as [H4 H5].
    split; [exact H4|]. rewrite H5, H3. lia.
  - apply shr_1_digits; exact Hr.
Qed.

Lemma Zdigits2_pos_iff (m : Z) : 0 <= m -> (0 < Zdigits2 m <-> 0 < m).
Proof. destruct m; simpl; lia. Qed.

Lemma shr_fexp_positive (m : positive) (e : Z) (l : location) :
  emin64 <= e ->
  0 < shr_m (fst (shr_fexp prec emax (Z.pos m) e l)) /\
  emin64 <= snd (shr_fexp prec emax (Z.pos m) e l).
Proof.
  intros He. unfold shr_fexp, shr.
  assert (Hm : shr_m (shr_record_of_loc (Z.pos m) l) = Z.pos m)
    by (destruct l as [|[]]; reflexivity).
  set (n := fexp prec emax (Zdigits2 (Z.pos m) + e) - e).
  assert (Hn : n <= Z.max 0 (Zdigits2 (Z.pos m) - 53)).
  { unfold n, fexp, SpecFloat.emin, prec, emax. unfold emin64 in He. lia. }
  destruct n as [|p|p] eqn:En; simpl fst; simpl snd;
    try (rewrite Hm; split; [lia | exact He]).
  destruct (iter_shr_1_digits p (shr_record_of_loc (Z.pos m) l)) as [H0 H1];
    [rewrite Hm; lia|].
  rewrite Hm in H1. split.
  - apply Zdigits2_pos_iff; [exact H0|]. rewrite H1. lia.
  - lia.
Qed.

Lemma round_nearest_even_positive (m : Z) (l : location) :
  0 < m -> 0 < round_nearest_even m l.
Proof.
  intros Hm. destruct l as [|[]]; cbn [round_nearest_even];
    try destruct (Z.even m); lia.
Qed.

Lemma binary_round_aux_nonzero (s : bool) (m : positive) (e : Z)
    (l : location) :
  emin64 <= e -> nonzero_num (binary_round_aux prec emax s (Z.pos m) e l).
Proof.
  intros He. unfold binary_round_aux.
  destruct (shr_fexp_positive m e l He) as [H1 H2].
  destruct (shr_fexp prec emax (Z.pos m) e l) as [r' e']; cbn [fst snd] in *.
  pose proof (round_nearest_even_positive _ (loc_of_shr_record r') H1) as H3.
  destruct (round_nearest_even (shr_m r') (loc_of_shr_record r'))
    as [|m'|m'] eqn:Em'; try lia.
  destruct (shr_fexp_positive m' e' loc_Exact H2) as [H4 H5].
  destruct (shr_fexp prec emax (Z.pos m') e' loc_Exact) as [r'' e''];
    cbn [fst snd] in *.
  destruct (shr_m r'') as [|m''|m'']; try lia.
  destruct (e'' <=? emax - prec); exact I.
Qed.

Lemma binary_round_nonzero (s : bool) (m : positive) (e : Z) :
  emin64 <= e -> nonzero_num (binary_round prec emax s m e).
Proof.
  intros He. unfold binary_round, shl_align.
  set (e' := fexp prec emax (Z.pos (digits2_pos m) + e)).
  assert (He' : emin64 <= e')
    by (unfold e', fexp, SpecFloat.emin, prec, emax, emin64; lia).
  destruct (e' - e); apply binary_round_aux_nonzero; assumption.
Qed.

Lemma binary_normalize_nonzero (m e : Z) (sz : bool) :
  m <> 0 -> emin64 <= e ->
  nonzero_num (binary_normalize prec emax m e sz).
Proof.
  intros Hm He. destruct m; [contradiction| |];
    apply binary_round_nonzero; exact He.
Qed.

(** Shifting a mantissa left. *)
Lemma iter_xO_value (m d : positive) :
  Z.pos (Pos.iter xO m d) = Z.pos m * 2 ^ Z.pos d.
Proof.
  induction d as [|d IH] using Pos.peano_ind.
  - cbn [Pos.iter]. lia.
  - rewrite Pos.iter_succ, Pos2Z.inj_xO, IH, Pos2Z.inj_succ.
    rewrite Z.pow_succ_r by lia. lia.
Qed.

Lemma iter_xO_digits (m d : positive) :
  Z.pos (digits2_pos (Pos.iter xO m d)) = Z.pos (digits2_pos m) + Z.pos d.
Proof.
  induction d as [|d IH] using Pos.peano_ind.
  - cbn [Pos.iter digits2_pos]. lia.
  - rewrite Pos.iter_succ. cbn [digits2_pos]. lia.
Qed.

Lemma valid_finite_emin (s : bool) (m : positive) (e : Z) :
  valid_binary (S754_finite s m e) = true -> emin64 <= e.
Proof.
  cbn [SpecFloat.valid_binary]. unfold bounded, canonical_mantissa.
  intros H. apply andb_prop in H. destruct H as [H _].
  apply Z.eqb_eq in H. revert H.
  unfold fexp, SpecFloat.emin, prec, emax, emin64. lia.
Qed.

Lemma canonical_digits_exponent (m1 m2 : positive) (e1 e2 : Z) :
  canonical_mantissa prec emax m1 e1 = true ->
  canonical_mantissa prec emax m2 e2 = true ->
  Z.pos (digits2_pos m1) + e1 = Z.pos (digits2_pos m2) + e2 ->
  e1 = e2.
Proof.
  unfold canonical_mantissa. intros H1 H2 H.
  apply Z.eqb_eq in H1, H2. rewrite H in H1. congruence.
Qed.

Lemma shl_align_fst (m : positive) (e ez : Z) :
  ez <= e ->
  Z.pos (fst (shl_align m e ez)) = Z.pos m * 2 ^ (e - ez) /\
  Z.pos (digits2_pos (fst (shl_align m e ez)))
  = Z.pos (digits2_pos m) + (e - ez).
Proof.
  intros Hle. unfold shl_align.
  destruct (ez - e) as [|d|d] eqn:Ed; cbn [fst]; try lia.
  - replace (e - ez) with 0 by lia. cbn. lia.
  - replace (e - ez) with (Z.pos d) by lia.
    split; [apply iter_xO_value | apply iter_xO_digits].
Qed.

Lemma SFcompare_same (s : bool) (m : positive) (e : Z) :
  SFcompare (S754_finite s m e) (S754_finite s m e) = Some Eq.
Proof.
  cbn [SFcompare]. rewrite Z.compare_refl, Pos.compare_cont_refl.
  destruct s; reflexivity.
Qed.

Lemma SFsub_finite_nonzero (sx sy : bool) (mx my : positive) (ex ey : Z) :
  valid_binary (S754_finite sx mx ex) = true ->
  valid_binary (S754_finite sy my ey) = true ->
  SFcompare (S754_finite sx mx ex) (S754_finite sy my ey) <> Some Eq ->
  nonzero_num (SF64sub (S754_finite sx mx ex) (S754_finite sy my ey)).
Proof.
  intros Vx Vy Hne.
  pose proof (valid_finite_emin _ _ _ Vx) as Hex.
  pose proof (valid_finite_emin _ _ _ Vy) as Hey.
  unfold SF64sub. cbn [SFsub].
  apply binary_normalize_nonzero; [|lia].
  destruct (shl_align_fst mx ex (Z.min ex ey)) as [Xv Xd]; [lia|].
  destruct (shl_align_fst my ey (Z.min ex ey)) as [Yv Yd]; [lia|].
  set (px := fst (shl_align mx ex (Z.min ex ey))) in *.
  set (py := fst (shl_align my ey (Z.min ex ey))) in *.
  intros HD.
  assert (Hs : sx = sy /\ px = py).
  { destruct sx, sy; cbn [cond_Zopp] in HD; try lia;
      split; try reflexivity; apply Pos2Z.inj; lia. }
  destruct Hs as [-> Hp]. rewrite Hp in Xv, Xd.
  cbn [SpecFloat.valid_binary] in Vx, Vy. unfold bounded in Vx, Vy.
  apply andb_prop in Vx, Vy. destruct Vx as [Cx _], Vy as [Cy _].
  assert (He : ex = ey)
    by (apply (canonical_digits_exponent mx my); [assumption..|lia]).
  subst ey. rewrite Z.min_id, Z.sub_diag in Xv, Yv.
  assert (mx = my) by (apply Pos2Z.inj; cbn in Xv, Yv; lia).
  subst my. apply Hne, SFcompare_same.
Qed.

Lemma SFcompare_finite_Eq (sx sy : bool) (mx my : positive) (ex ey : Z) :
  SFcompare (S754_finite sx mx ex) (S754_finite sy my ey) = Some Eq ->
  sx = sy /\ mx = my /\ ex = ey.
Proof.
  cbn [SFcompare]. intros H.
  destruct sx, sy; try discriminate;
    destruct (Z.compare_spec ex ey) as [He|He|He]; try discriminate;
    destruct (Pos.compare_cont Eq mx my) eqn:Hm; try discriminate;
    apply Pos.compare_eq in Hm; auto.
Qed.

(** Equal operands: the difference is a zero, or a NaN for infinities and
    NaNs. *)
Lemma SFsub_equal (x y : spec_float) :
  SFcompare x y = Some Eq \/ x = y -> zero_or_nan (SF64sub x y).
Proof.
  intros H.
  assert (Hxx : forall s m e,
             zero_or_nan (SF64sub (S754_finite s m e) (S754_finite s m e))).
  { intros s m e. unfold SF64sub. cbn [SFsub]. rewrite Z.sub_diag. exact I. }
  destruct H as [H| ->].
  - destruct x as [sx|sx| |sx mx ex], y as [sy|sy| |sy my ey];
      try discriminate H; try exact I;
      try (destruct sx, sy; try discriminate H; exact I).
    apply SFcompare_finite_Eq in H. destruct H as (-> & -> & ->).
    apply Hxx.
  - destruct y as [s|s| |s m e]; try exact I; try (destruct s; exact I).
    apply Hxx.
Qed.

(** Distinct operands, neither a NaN: the difference is neither a zero nor a
    NaN. *)
Lemma SFsub_distinct (x y : spec_float) :
  valid_binary x = true -> valid_binary y = true ->
  x <> S754_nan -> y <> S754_nan -> SFcompare x y <> Some Eq ->
  nonzero_num (SF64sub x y).
Proof.
  intros Vx Vy Nx Ny Hne.
  destruct x as [sx|sx| |sx mx ex], y as [sy|sy| |sy my ey];
    try congruence; try exact I;
    try (now apply SFsub_finite_nonzero).
  - exfalso. apply Hne. reflexivity.
  - destruct sx, sy; try exact I; exfalso; apply Hne; reflexivity.
Qed.

(** Division by a zero. *)
Lemma SFdiv_zero_of_zero_or_nan (x : spec_float) (s : bool) :
  zero_or_nan x -> SF64div x (S754_zero s) = S754_nan.
Proof. destruct x; intros H; try contradiction; reflexivity. Qed.

Lemma SFdiv_zero_of_nonzero (x : spec_float) (s : bool) :
  nonzero_num x -> exists s', SF64div x (S754_zero s) = S754_infinity s'.
Proof.
  destruct x as [sx|sx| |sx mx ex]; intros H; try contradiction;
    exists (xorb sx s); reflexivity.
Qed.

Lemma SFeqb_zero_inv (x : spec_float) (s : bool) :
  SFeqb x (S754_zero s) = true -> exists s', x = S754_zero s'.
Proof.
  unfold SFeqb. destruct x as [sx|sx| |sx mx ex]; cbn [SFcompare].
  - intros _. exists sx. reflexivity.
  - destruct sx; discriminate.
  - discriminate.
  - destruct sx; discriminate.
Qed.

Lemma SFeqb_refl_not_nan (x : spec_float) :
  SFeqb x x = true -> x <> S754_nan.
Proof. intros H ->. discriminate H. Qed.

(** Comparison of swapped operands. *)
Lemma SFcompare_swap (x y : spec_float) :
  SFcompare y x = option_map CompOpp (SFcompare x y).
Proof.
  destruct x as [sx|sx| |sx mx ex], y as [sy|sy| |sy my ey];
    cbn [SFcompare option_map];
    try reflexivity; try (destruct sx; reflexivity);
    try (destruct sy; reflexivity);
    try (destruct sx, sy; reflexivity).
  assert (Hm : Pos.compare_cont Eq my mx = CompOpp (Pos.compare_cont Eq mx my))
    by (symmetry; apply (Pos.compare_cont_antisym mx my Eq)).
  rewrite (Z.compare_antisym ex ey), Hm.
  destruct sx, sy, (ex ?= ey), (Pos.compare_cont Eq mx my); reflexivity.
Qed.

End SF.

(** The same facts on primitive floats. *)

Module F64.

Lemma nan_of_spec (x : float) : Prim2SF x = S754_nan -> x = nan.
Proof. intros H. apply Prim2SF_inj. rewrite H. reflexivity. Qed.

Lemma infinity_of_spec (x : float) :
  Prim2SF x = S754_infinity false -> x = infinity.
Proof. intros H. apply Prim2SF_inj. rewrite H. reflexivity. Qed.

Lemma is_nan_false_spec (x : float) :
  is_nan x = false -> Prim2SF x <> S754_nan.
Proof.
  unfold is_nan. rewrite eqb_spec. intros H.
  apply SF.SFeqb_refl_not_nan. now apply negb_false_iff.
Qed.

Lemma eqb_zero_spec (x : float) :
  (x =? 0)%float = true -> exists s, Prim2SF x = S754_zero s.
Proof. rewrite eqb_spec. apply SF.SFeqb_zero_inv. Qed.

(** [nan <= t] is false for every [t]. *)
Lemma leb_nan_l (t : float) : (nan <=? t)%float = false.
Proof. rewrite leb_spec. reflexivity. Qed.

Lemma ltb_leb_swap (x y : float) :
  (x <? y)%float = true -> (y <=? x)%float = false.
Proof.
  rewrite ltb_spec, leb_spec. unfold SFltb, SFleb.
  rewrite (SF.SFcompare_swap (Prim2SF x) (Prim2SF y)).
  destruct (SFcompare (Prim2SF x) (Prim2SF y)) as [[]|];
    cbn; congruence.
Qed.

Lemma leb_ltb_swap (x y : float) :
  (x <=? y)%float = true -> (y <? x)%float = false.
Proof.
  rewrite ltb_spec, leb_spec. unfold SFltb, SFleb.
  rewrite (SF.SFcompare_swap (Prim2SF x) (Prim2SF y)).
  destruct (SFcompare (Prim2SF x) (Prim2SF y)) as [[]|];
    cbn; congruence.
Qed.

(** Zero standard deviation, value equal to the mean: the quotient is NaN. *)
Lemma residual_equal (x y d : float) :
  (d =? 0)%float = true ->
  (x =? y)%float = true \/ x = y ->
  ((x - y) / d)%float = nan.
Proof.
  intros Hd Hxy. apply nan_of_spec.
  destruct (eqb_zero_spec d Hd) as [s Hs].
  rewrite div_spec, sub_spec, Hs.
  apply SF.SFdiv_zero_of_zero_or_nan, SF.SFsub_equal.
  destruct Hxy as [H| ->]; [left|right; reflexivity].
  rewrite eqb_spec in H. unfold SFeqb in H.
  destruct (SFcompare (Prim2SF x) (Prim2SF y)) as [[]|];
    try discriminate; reflexivity.
Qed.

(** Zero standard deviation, value different from the mean: the quotient is
    an infinity, and its square is plus infinity. *)
Lemma residual_distinct (x y d : float) :
  (d =? 0)%float = true ->
  is_nan x = false -> is_nan y = false -> (x =? y)%float = false ->
  (((x - y) / d) * ((x - y) / d))%float = infinity.
Proof.
  intros Hd Nx Ny Hxy. apply infinity_of_spec.
  destruct (eqb_zero_spec d Hd) as [s Hs].
  rewrite mul_spec, div_spec, sub_spec, Hs.
  destruct (SF.SFdiv_zero_of_nonzero
              (SF64sub (Prim2SF x) (Prim2SF y)) s) as [s' Hs'].
  - apply SF.SFsub_distinct;
      auto using Prim2SF_valid, is_nan_false_spec.
    rewrite eqb_spec in Hxy. unfold SFeqb in Hxy. intros E.
    rewrite E in Hxy. discriminate.
  - rewrite Hs'. cbn. destruct s'; reflexivity.
Qed.

(** A NaN mean gives a NaN standard deviation, which is not zero. *)
Lemma sqrt_sub_square_nan (a m : float) :
  is_nan m = true -> (PrimFloat.sqrt (a - m * m) =? 0)%float = false.
Proof.
  unfold is_nan. rewrite !eqb_spec, sqrt_spec, sub_spec, mul_spec.
  intros H. apply negb_true_iff in H.
  destruct (Prim2SF m) as [sm|sm| |sm mm em] eqn:Em.
  1,2,4: exfalso; revert H; unfold SFeqb;
    first [ rewrite SF.SFcompare_same | destruct sm ]; discriminate.
  destruct (Prim2SF a); reflexivity.
Qed.

End F64.

(** ** Properties of the package *)

Module GoIntFacts.

Lemma wrap_in_range (z : Z) : GoInt.in_range z -> GoInt.wrap z = z.
Proof.
  unfold GoInt.in_range, GoInt.min_int, GoInt.max_int, GoInt.wrap.
  intros H. rewrite Z.mod_small; lia.
Qed.

(** The warm-up expression [1 - 1.0/(l+1)] on integers: the divisor is never
    zero, and the quotient is 1 for [l = 0] and 0 for every larger [l]. *)
Lemma warmup_weight (l : Z) :
  0 <= l < GoInt.max_int ->
  option_map (GoInt.sub 1) (GoInt.quo 1 (GoInt.add l 1))
  = Some (if l =? 0 then 0 else 1).
Proof.
  intros Hl. unfold GoInt.add, GoInt.quo, GoInt.sub.
  assert (Hr : GoInt.in_range (l + 1))
    by (unfold GoInt.in_range, GoInt.min_int, GoInt.max_int in *; lia).
  rewrite (wrap_in_range _ Hr).
  destruct (Z.eqb_spec (l + 1) 0) as [E|_]; [lia|].
  cbn [option_map]. f_equal.
  destruct (Z.eqb_spec l 0) as [->|Hn].
  - reflexivity.
  - rewrite Z.quot_small by lia. reflexivity.
Qed.

End GoIntFacts.

Section Properties.

(** [math.Exp] and the identifier [adapt], as in the package. *)
Variable Exp : float -> float.
Variable adapt : float.

Ltac run :=
  unfold PEWMA_Add, PEWMA_alpha, PEWMA_Analyze, PEWMA_pushAndPop,
    bind, get, ret, lift.

(** *** Weight selection *)

(** During warm-up the weight is the integer [1 - 1/(l+1)] converted to a
    float: 0 for an empty history and 1 afterwards. *)
Lemma PEWMA_alpha_warmup (p : PEWMA) (v : Value) :
  len (captured p) < trainingPeriod (config p) ->
  trainingPeriod (config p) <= GoInt.max_int ->
  PEWMA_alpha Exp v p
  = Some (if len (captured p) =? 0 then 0%float else 1%float, p).
Proof.
  intros Hl HT. run.
  destruct (Z.ltb_spec (len (captured p)) (trainingPeriod (config p)));
    [|lia].
  pose proof (GoIntFacts.warmup_weight (len (captured p))) as W.
  destruct (GoInt.quo 1 (GoInt.add (len (captured p)) 1)) as [q|];
    cbn [option_map] in W.
  - assert (Hq : GoInt.sub 1 q = if len (captured p) =? 0 then 0 else 1)
      by (unfold len in *; injection W; [auto|lia]).
    rewrite Hq. destruct (len (captured p) =? 0); reflexivity.
  - unfold len in *. discriminate W. lia.
Qed.

(** After warm-up the weight is [(1 - beta * pt(v)) * alpha0], on the
    statistics the receiver holds. *)
Lemma PEWMA_alpha_trained (p : PEWMA) (v : Value) :
  trainingPeriod (config p) <= len (captured p) ->
  PEWMA_alpha Exp v p
  = Some (((1 - betaWeight (config p) * factors_pt Exp (pfactors p) v)
           * alpha0Weight (config p))%float, p).
Proof.
  intros Hl. run.
  destruct (Z.ltb_spec (len (captured p)) (trainingPeriod (config p)));
    [lia|reflexivity].
Qed.

(** [alpha] never panics and never writes the receiver. *)
Lemma PEWMA_alpha_total (p : PEWMA) (v : Value) :
  trainingPeriod (config p) <= GoInt.max_int ->
  exists a, PEWMA_alpha Exp v p = Some (a, p).
Proof.
  intros HT.
  destruct (Z.lt_ge_cases (len (captured p)) (trainingPeriod (config p))).
  - eexists. apply PEWMA_alpha_warmup; assumption.
  - eexists. apply PEWMA_alpha_trained; assumption.
Qed.

Lemma PEWMA_pushAndPop_spec (p : PEWMA) (v : Value) :
  PEWMA_pushAndPop v p
  = Some (window (trainingPeriod (config p)) (captured p) v, p).
Proof.
  run. unfold window.
  destruct (len (captured p ++ [v]) >? trainingPeriod (config p));
    reflexivity.
Qed.

(** [Add] in one equation. *)
Lemma PEWMA_Add_spec (p : PEWMA) (v a : Value) :
  PEWMA_alpha Exp v p = Some (a, p) ->
  PEWMA_Add Exp v p
  = Some (mkPEWMA (window (trainingPeriod (config p)) (captured p) v)
                  (config p)
                  (factors_New (pfactors p) a v), p).
Proof.
  intros Ha. unfold PEWMA_Add, bind at 1. rewrite Ha.
  unfold bind at 1, get. unfold bind at 1.
  rewrite PEWMA_pushAndPop_spec. reflexivity.
Qed.

(** *** Statistics update *)

(** C3. [factors.New] with blend weight [alpha] and value [v] returns a state
    with [s1' = alpha*s1 + (1-alpha)*v], [s2' = alpha*s2 + (1-alpha)*v^2] and
    [stdDeviation' = sqrt(s2' - s1'^2)], every operation being the binary64
    one.  The receiver is passed by value and the result is built from it:
    the state given is the state read in all three equations. *)
Theorem factors_New_update (f : factors) (alpha v : Value) :
  let f' := factors_New f alpha v in
  s1 f' = (alpha * s1 f + (1 - alpha) * v)%float /\
  s2 f' = (alpha * s2 f + (1 - alpha) * (v * v))%float /\
  stdDeviation f' = PrimFloat.sqrt (s2 f' - s1 f' * s1 f')%float.
Proof. cbv zeta. repeat split. Qed.

(** *** Classification *)

Lemma PEWMA_Analyze_spec (p : PEWMA) (v : Value) (threshold : float) :
  PEWMA_Analyze Exp v threshold p
  = Some (if len (captured p) <? trainingPeriod (config p) then InTraining
          else if (factors_pt Exp (pfactors p) v <=? threshold)%float
               then Outlier else InOrdinary, p).
Proof.
  run. unfold factors_detectAnomaly.
  destruct (len (captured p) <? trainingPeriod (config p)); [reflexivity|].
  destruct (factors_pt Exp (pfactors p) v <=? threshold)%float; reflexivity.
Qed.

(** C4. [Analyze] returns [InTraining] exactly when the history is shorter
    than the training period; otherwise [Outlier] exactly when the density
    [exp(-(z^2)/2)/sqrt(2*pi)] of [z = (v - s1)/stdDeviation], on the
    statistics held before any update, is at most the threshold, and
    [InOrdinary] otherwise. *)
Theorem PEWMA_Analyze_cases (p : PEWMA) (v : Value) (threshold : float) :
  let T := trainingPeriod (config p) in
  let f := pfactors p in
  let z := ((v - s1 f) / stdDeviation f)%float in
  let density :=
    (Exp (- (z * z) / 2) / PrimFloat.sqrt (2 * math_Pi))%float in
  (classify Exp p v threshold = Some InTraining
   <-> len (captured p) < T) /\
  (classify Exp p v threshold = Some Outlier
   <-> T <= len (captured p) /\ (density <=? threshold)%float = true) /\
  (classify Exp p v threshold = Some InOrdinary
   <-> T <= len (captured p) /\ (density <=? threshold)%float = false).
Proof.
  cbv zeta. unfold classify. rewrite PEWMA_Analyze_spec.
  cbn [option_map fst]. unfold factors_pt, factors_zt.
  destruct (Z.ltb_spec (len (captured p)) (trainingPeriod (config p)))
    as [Hl|Hl].
  - split; [|split]; split; intros H;
      first [ exact Hl | reflexivity | discriminate H | lia ].
  - destruct ((Exp _ / _) <=? threshold)%float;
      (split; [|split]); split; intros H;
      first [ discriminate H | lia | split; [exact Hl|reflexivity]
            | reflexivity | destruct H as [_ H]; discriminate H ].
Qed.

(** C8. [Analyze] is a query: it returns the receiver as it found it, with
    configuration, history and statistics, and a second call with the same
    arguments returns the same status. *)
Theorem PEWMA_Analyze_pure (p : PEWMA) (v : Value) (threshold : float) :
  exists st,
    PEWMA_Analyze Exp v threshold p = Some (st, p) /\
    (a <- PEWMA_Analyze Exp v threshold ;;
     b <- PEWMA_Analyze Exp v threshold ;;
     ret (a, b))%go p = Some ((st, st), p).
Proof.
  eexists. split; [apply PEWMA_Analyze_spec|].
  unfold bind. rewrite PEWMA_Analyze_spec. cbn beta iota.
  rewrite PEWMA_Analyze_spec. reflexivity.
Qed.

(** *** Configuration *)

(** C5. [NewConfig] fails with the alpha0 error exactly when
    [alpha0 <= 0 || 1 <= alpha0]; with the beta error exactly when alpha0
    passed and [beta < 0 || 1 <= beta]; and succeeds whenever
    [0 < alpha0 < 1] and [0 <= beta < 1], for every training period, zero and
    negative ones included. *)
Theorem NewConfig_validation (t : Z) (alpha0 beta : float) :
  let bad_alpha := ((alpha0 <=? 0)%float || (1 <=? alpha0)%float)%bool in
  let bad_beta := ((beta <? 0)%float || (1 <=? beta)%float)%bool in
  (snd (NewConfig adapt t alpha0 beta) = Some "alpha0 weight is invalid"%string
   <-> bad_alpha = true) /\
  (snd (NewConfig adapt t alpha0 beta) = Some "beta weight is invalid"%string
   <-> bad_alpha = false /\ bad_beta = true) /\
  ((0 <? alpha0)%float = true -> (alpha0 <? 1)%float = true ->
   (0 <=? beta)%float = true -> (beta <? 1)%float = true ->
   NewConfig adapt t alpha0 beta = (mkConfig t adapt beta, None)).
Proof.
  cbv zeta. unfold NewConfig, errors_New. repeat split.
  - destruct ((alpha0 <=? 0)%float || (1 <=? alpha0)%float)%bool;
      [reflexivity|].
    destruct ((beta <? 0)%float || (1 <=? beta)%float)%bool; discriminate.
  - intros ->. reflexivity.
  - destruct ((alpha0 <=? 0)%float || (1 <=? alpha0)%float)%bool;
      [discriminate|reflexivity].
  - destruct ((alpha0 <=? 0)%float || (1 <=? alpha0)%float)%bool;
      [discriminate|].
    destruct ((beta <? 0)%float || (1 <=? beta)%float)%bool;
      [reflexivity|discriminate].
  - intros [-> ->]. reflexivity.
  - intros A0 A1 B0 B1.
    rewrite (F64.ltb_leb_swap _ _ A0), (F64.ltb_leb_swap _ _ A1),
      (F64.leb_ltb_swap _ _ B0), (F64.ltb_leb_swap _ _ B1).
    reflexivity.
Qed.

(** *** Ingestion *)

(** C7. [Add] returns for every value, NaN and infinities included, and
    leaves the receiver as found.  Everything is read from the receiver as
    found: the weight is 0 on an empty history and 1 on any other history
    shorter than the training period, and [(1 - beta * density) * alpha0Weight]
    otherwise, with the density [exp(-(z^2)/2)/sqrt(2*pi)] of
    [z = (v - s1)/stdDeviation]; the new statistics are
    [s1' = alpha*s1 + (1-alpha)*v], [s2' = alpha*s2 + (1-alpha)*v^2] and
    [sqrt(s2' - s1'^2)]; the new history is the old one followed by [v],
    without its first element when that is longer than the training period.
    The processor returned holds the receiver's configuration, that history
    and those statistics. *)
Theorem PEWMA_Add_two_phase (p : PEWMA) (v : Value) :
  GoInt.in_range (trainingPeriod (config p)) ->
  let T := trainingPeriod (config p) in
  let l := len (captured p) in
  let f := pfactors p in
  let z := ((v - s1 f) / stdDeviation f)%float in
  let density :=
    (Exp (- (z * z) / 2) / PrimFloat.sqrt (2 * math_Pi))%float in
  let alpha :=
    if l <? T then (if l =? 0 then 0%float else 1%float)
    else ((1 - betaWeight (config p) * density)
          * alpha0Weight (config p))%float in
  let s1' := (alpha * s1 f + (1 - alpha) * v)%float in
  let s2' := (alpha * s2 f + (1 - alpha) * (v * v))%float in
  let history :=
    if len (captured p ++ [v]) >? T then skipn 1 (captured p ++ [v])
    else captured p ++ [v] in
  PEWMA_alpha Exp v p = Some (alpha, p) /\
  PEWMA_pushAndPop v p = Some (history, p) /\
  PEWMA_Add Exp v p
  = Some (mkPEWMA history (config p)
            (mkFactors s1' s2' (PrimFloat.sqrt (s2' - s1' * s1'))), p).
Proof.
  intros [_ HT]. cbv zeta.
  assert (Ha : PEWMA_alpha Exp v p
               = Some (if len (captured p) <? trainingPeriod (config p)
                       then (if len (captured p) =? 0
                             then 0%float else 1%float)
                       else ((1 - betaWeight (config p)
                                  * factors_pt Exp (pfactors p) v)
                             * alpha0Weight (config p))%float, p)).
  { destruct (Z.ltb_spec (len (captured p)) (trainingPeriod (config p))).
    - apply PEWMA_alpha_warmup; assumption.
    - apply PEWMA_alpha_trained; assumption. }
  split; [exact Ha|]. split; [apply PEWMA_pushAndPop_spec|].
  rewrite (PEWMA_Add_spec p v _ Ha). reflexivity.
Qed.

(** *** The history window *)

Lemma lastn_length {A : Type} (n : nat) (l : list A) :
  List.length (lastn n l) = Nat.min n (List.length l).
Proof. unfold lastn. rewrite length_skipn. lia. Qed.

Lemma lastn_short {A : Type} (n : nat) (l : list A) :
  (List.length l <= n)%nat -> lastn n l = l.
Proof.
  intros H. unfold lastn.
  replace (List.length l - n)%nat with 0%nat by lia. reflexivity.
Qed.

(** Keeping the last [n] elements at each step keeps the last [n] of the
    whole. *)
Lemma lastn_app_lastn {A : Type} (n : nat) (a b : list A) :
  lastn n (lastn n a ++ b) = lastn n (a ++ b).
Proof.
  destruct (Nat.le_gt_cases (List.length a) n) as [H|H].
  - rewrite (lastn_short n a H). reflexivity.
  - unfold lastn at 1 3. rewrite !length_app, lastn_length.
    unfold lastn.
    replace (List.length a + List.length b - n)%nat
      with (List.length b + (List.length a - n))%nat by lia.
    rewrite <- skipn_skipn. f_equal; [lia|].
    rewrite skipn_app.
    replace (List.length a - n - List.length a)%nat with 0%nat by lia.
    reflexivity.
Qed.

(** One step of [pushAndPop] on a history within capacity keeps the last
    [T] elements. *)
Lemma window_lastn (T : Z) (c : list Value) (v : Value) :
  0 <= T -> len c <= T ->
  window T c v = lastn (Z.to_nat T) (c ++ [v]).
Proof.
  unfold window, lastn, len. intros HT Hc.
  rewrite length_app. cbn [List.length].
  destruct (Z.gtb_spec (Z.of_nat (List.length c + 1)) T) as [H|H].
  - f_equal. lia.
  - replace (List.length c + 1 - Z.to_nat T)%nat with 0%nat by lia.
    reflexivity.
Qed.

Lemma ingest_spec (p : PEWMA) (v a : Value) :
  PEWMA_alpha Exp v p = Some (a, p) ->
  ingest Exp p v
  = Some (mkPEWMA (window (trainingPeriod (config p)) (captured p) v)
                  (config p)
                  (factors_New (pfactors p) a v)).
Proof.
  intros Ha. unfold ingest. rewrite (PEWMA_Add_spec p v a Ha). reflexivity.
Qed.

(** A stream of ingestions on a processor whose history is within capacity:
    every step returns, the configuration is kept, and the history is the last
    [T] elements of the old history followed by the stream. *)
Lemma ingestAll_window (vs : list Value) :
  forall p,
    0 <= trainingPeriod (config p) <= GoInt.max_int ->
    len (captured p) <= trainingPeriod (config p) ->
    exists p',
      ingestAll Exp p vs = Some p' /\
      config p' = config p /\
      captured p'
      = lastn (Z.to_nat (trainingPeriod (config p))) (captured p ++ vs).
Proof.
  induction vs as [|v vs IH]; intros p HT Hc.
  - exists p. rewrite app_nil_r. repeat split.
    symmetry. apply lastn_short. unfold len in Hc. lia.
  - destruct (PEWMA_alpha_total p v (proj2 HT)) as [a Ha].
    cbn [ingestAll]. rewrite (ingest_spec p v a Ha).
    set (p1 := mkPEWMA _ _ _).
    assert (Hw : captured p1
                 = lastn (Z.to_nat (trainingPeriod (config p)))
                         (captured p ++ [v]))
      by (apply window_lastn; lia).
    destruct (IH p1) as (p' & Hrun & Hconf & Hcap).
    + exact HT.
    + cbn [config p1]. rewrite Hw. unfold len.
      rewrite lastn_length. lia.
    + exists p'. split; [exact Hrun|]. split; [exact Hconf|].
      rewrite Hcap. cbn [config p1]. rewrite Hw, lastn_app_lastn.
      rewrite <- app_assoc. reflexivity.
Qed.

(** C6. With a training period [T >= 1], from a fresh processor: every
    ingestion of a stream returns, the history is never longer than [T], and
    once more than [T] values were ingested it has exactly [T] elements, the
    last [T] values of the stream in their order. *)
Theorem history_window (conf : Config) (vs : list Value) :
  1 <= trainingPeriod conf ->
  GoInt.in_range (trainingPeriod conf) ->
  exists p,
    ingestAll Exp (New conf) vs = Some p /\
    len (captured p) <= trainingPeriod conf /\
    (trainingPeriod conf < len vs ->
     len (captured p) = trainingPeriod conf /\
     captured p = lastn (Z.to_nat (trainingPeriod conf)) vs).
Proof.
  intros H1 [_ HT].
  destruct (ingestAll_window vs (New conf)) as (p & Hrun & _ & Hcap).
  - cbn [New config]. lia.
  - cbn. lia.
  - cbn [New config captured app] in Hcap.
    exists p. split; [exact Hrun|].
    rewrite Hcap. unfold len. rewrite lastn_length.
    split; [lia|]. intros HN. unfold len in HN. split; [lia|reflexivity].
Qed.

(** *** Warm-up weights as computed *)

(** C1. The warm-up weight is not [1 - 1/(n+1)] on floats: the quotient
    [1.0/(l+1)] is an integer quotient.  With training period 3 and history
    [[10]] the weight for the next value is 1 where the formula gives 1/2,
    and after ingesting [[10; 20]] into a fresh processor [s1] is 10 where the
    arithmetic mean is 15. *)
Theorem warmup_weight_integer_quotient :
  let conf := mkConfig 3 0.9 0.3 in
  let p1 := mkPEWMA [10%float] conf (factors_New factors_zero 0%float 10%float) in
  ingestAll Exp (New conf) [10%float] = Some p1 /\
  PEWMA_alpha Exp 20%float p1 = Some (1%float, p1) /\
  (1 - 1 / (1 + 1))%float = 0.5%float /\
  option_map (fun p => s1 (pfactors p))
    (ingestAll Exp (New conf) [10%float; 20%float]) = Some 10%float /\
  ((10 + 20) / 2)%float = 15%float.
Proof. vm_compute. repeat split. Qed.

(** *** The stored baseline weight *)

Lemma float_0_9_neq_0_5 : 0.9%float <> 0.5%float.
Proof.
  intros H.
  assert (E : (0.9 <? 0.7)%float = (0.5 <? 0.7)%float) by (rewrite H; reflexivity).
  vm_compute in E. discriminate E.
Qed.

(** C2. The weight after warm-up is [(1 - beta * pt(v)) * alpha0Weight] on the
    statistics held before the update, with [beta] the value given to
    [NewConfig]; but [alpha0Weight] is the identifier [adapt] whatever
    [alpha0] was given: [NewConfig(5, 0.9, 0.3)] and [NewConfig(5, 0.5, 0.3)]
    store the same weight, so one of the two does not hold the value
    passed. *)
Theorem NewConfig_drops_alpha0 (f : factors) (v : Value) :
  let conf := fst (NewConfig adapt 5 0.9 0.3) in
  let p := mkPEWMA [1; 1; 1; 1; 1]%float conf f in
  snd (NewConfig adapt 5 0.9 0.3) = None /\
  snd (NewConfig adapt 5 0.5 0.3) = None /\
  betaWeight conf = 0.3%float /\
  alpha0Weight conf = adapt /\
  alpha0Weight (fst (NewConfig adapt 5 0.5 0.3)) = adapt /\
  PEWMA_alpha Exp v p
  = Some (((1 - 0.3 * factors_pt Exp f v) * adapt)%float, p) /\
  (exists alpha0,
      snd (NewConfig adapt 5 alpha0 0.3) = None /\
      alpha0Weight (fst (NewConfig adapt 5 alpha0 0.3)) <> alpha0).
Proof.
  cbv zeta. repeat split.
  destruct (PrimFloat.Leibniz.eqb adapt 0.9) eqn:E.
  - apply FloatAxioms.Leibniz.eqb_spec in E. subst adapt.
    exists 0.5%float. split; [reflexivity|]. exact float_0_9_neq_0_5.
  - exists 0.9%float. split; [reflexivity|]. cbn. intros H.
    apply FloatAxioms.Leibniz.eqb_spec in H. congruence.
Qed.

(** *** Reachable statistics *)

Lemma PEWMA_alpha_frame (p q : PEWMA) (v a : Value) :
  PEWMA_alpha Exp v p = Some (a, q) -> q = p.
Proof.
  run.
  destruct (len (captured p) <? trainingPeriod (config p)).
  - destruct (GoInt.quo 1 (GoInt.add (len (captured p)) 1));
      [|discriminate]. intros H. injection H. auto.
  - intros H. injection H. auto.
Qed.

Lemma ingest_factors (p p' : PEWMA) (v : Value) :
  ingest Exp p v = Some p' ->
  exists a, pfactors p' = factors_New (pfactors p) a v.
Proof.
  intros H. destruct (PEWMA_alpha Exp v p) as [[a q]|] eqn:Ha.
  - pose proof (PEWMA_alpha_frame _ _ _ _ Ha). subst q.
    rewrite (ingest_spec p v a Ha) in H. injection H as <-.
    exists a. reflexivity.
  - unfold ingest, PEWMA_Add, bind in H. rewrite Ha in H. discriminate H.
Qed.

Lemma factors_New_mean_defined (f : factors) (a v : Value) :
  mean_defined (factors_New f a v).
Proof.
  unfold mean_defined, factors_New, Value_sqrt, Value_square.
  cbn [stdDeviation s1]. intros H0.
  destruct (is_nan (a * s1 f + (1 - a) * v)%float) eqn:N; [|reflexivity].
  rewrite (F64.sqrt_sub_square_nan _ _ N) in H0. discriminate H0.
Qed.

Lemma ingestAll_mean_defined (vs : list Value) :
  forall p p',
    mean_defined (pfactors p) ->
    ingestAll Exp p vs = Some p' -> mean_defined (pfactors p').
Proof.
  induction vs as [|v vs IH]; intros p p' Hp H; cbn [ingestAll] in H.
  - injection H as <-. exact Hp.
  - destruct (ingest Exp p v) as [p1|] eqn:E; [|discriminate H].
    apply (IH p1 p'); [|exact H].
    destruct (ingest_factors _ _ _ E) as [a ->].
    apply factors_New_mean_defined.
Qed.

(** *** Degenerate statistics *)

Section SpecialCases.

(** The special cases of [math.Exp] that the package meets when the standard
    deviation is zero: [Exp(NaN) = NaN] and [Exp(-Inf) = 0]. *)
Hypothesis Exp_NaN : Exp nan = nan.
Hypothesis Exp_NegInf : Exp neg_infinity = zero.

(** With a zero deviation and a value equal to the mean, the density is NaN. *)
Lemma factors_pt_equal (f : factors) (v : Value) :
  (stdDeviation f =? 0)%float = true ->
  (v =? s1 f)%float = true \/ v = s1 f ->
  factors_pt Exp f v = nan.
Proof.
  intros Hd Hv. unfold factors_pt, factors_zt.
  rewrite (F64.residual_equal v (s1 f) (stdDeviation f) Hd Hv).
  replace (- (nan * nan) / 2)%float with nan by reflexivity.
  rewrite Exp_NaN. reflexivity.
Qed.

(** With a zero deviation and a value different from the mean, neither being
    NaN, the density is zero. *)
Lemma factors_pt_distinct (f : factors) (v : Value) :
  (stdDeviation f =? 0)%float = true ->
  is_nan v = false -> is_nan (s1 f) = false ->
  (v =? s1 f)%float = false ->
  factors_pt Exp f v = zero.
Proof.
  intros Hd Nv Ns Hv. unfold factors_pt, factors_zt.
  rewrite (F64.residual_distinct v (s1 f) (stdDeviation f) Hd Nv Ns Hv).
  replace (- infinity / 2)%float with neg_infinity by reflexivity.
  rewrite Exp_NegInf. reflexivity.
Qed.

(** C9. [NewConfig(5, 0.9, 0.3)] succeeds; the processor that ingested
    [[1; 1; 1; 1; 1]] with that configuration answers [InOrdinary] to
    [Analyze(1, 0.01)] and [Outlier] to [Analyze(1000, 0.01)]. *)
Theorem concrete_scenario :
  snd (NewConfig adapt 5 0.9 0.3) = None /\
  exists p,
    ingestAll Exp (New (fst (NewConfig adapt 5 0.9 0.3)))
      [1; 1; 1; 1; 1]%float = Some p /\
    classify Exp p 1 0.01 = Some InOrdinary /\
    classify Exp p 1000 0.01 = Some Outlier.
Proof.
  split; [reflexivity|].
  eexists. split; [vm_compute; reflexivity|].
  unfold classify. rewrite !PEWMA_Analyze_spec.
  cbn [option_map fst captured config pfactors trainingPeriod].
  replace (len [1; 1; 1; 1; 1]%float <? 5) with false by reflexivity.
  rewrite factors_pt_equal, factors_pt_distinct; try reflexivity.
  - split; reflexivity.
  - left. reflexivity.
Qed.

(** C10, as amended.  For a processor reached from a fresh one, with a full
    history and a standard deviation equal to zero: [Analyze] returns
    [InOrdinary] for every threshold when the value equals the mean, and
    [Outlier] when the value is not NaN, differs from the mean and the
    threshold is at least zero. *)
Theorem zero_deviation_classification (conf : Config) (vs : list Value)
    (p : PEWMA) (v : Value) (threshold : float) :
  ingestAll Exp (New conf) vs = Some p ->
  trainingPeriod (config p) <= len (captured p) ->
  (stdDeviation (pfactors p) =? 0)%float = true ->
  ((v =? s1 (pfactors p))%float = true \/ v = s1 (pfactors p) ->
   classify Exp p v threshold = Some InOrdinary) /\
  (is_nan v = false -> (v =? s1 (pfactors p))%float = false ->
   (0 <=? threshold)%float = true ->
   classify Exp p v threshold = Some Outlier).
Proof.
  intros Hrun Hfull Hd.
  assert (Hm : mean_defined (pfactors p)).
  { apply (ingestAll_mean_defined vs (New conf) p); [|exact Hrun].
    intros _. reflexivity. }
  unfold classify. rewrite PEWMA_Analyze_spec. cbn [option_map fst].
  destruct (Z.ltb_spec (len (captured p)) (trainingPeriod (config p)));
    [lia|].
  split.
  - intros Hv. rewrite (factors_pt_equal _ _ Hd Hv), F64.leb_nan_l.
    reflexivity.
  - intros Nv Hv Hth.
    rewrite (factors_pt_distinct _ _ Hd Nv (Hm Hd) Hv).
    change (zero <=? threshold)%float with (0 <=? threshold)%float.
    rewrite Hth. reflexivity.
Qed.

End SpecialCases.

End Properties.

(** ** The theorems at concrete inputs

    [math.Exp] is instantiated by [Exp_ref] and [adapt] by [0.9]. *)

Lemma Exp_ref_NaN : Exp_ref nan = nan.
Proof. reflexivity. Qed.

Lemma Exp_ref_NegInf : Exp_ref neg_infinity = zero.
Proof. reflexivity. Qed.

(** [NewConfig] accepts a negative training period. *)
Lemma NewConfig_validation_witness :
  NewConfig 0.9 (-7) 0.9 0.3 = (mkConfig (-7) 0.9 0.3, None).
Proof.
  destruct (NewConfig_validation 0.9 (-7) 0.9 0.3) as (_ & _ & H).
  apply H; reflexivity.
Defined.

(** Four values through a window of two. *)
Lemma history_window_witness :
  exists p,
    ingestAll Exp_ref (New (mkConfig 2 0.9 0.3)) [1; 2; 3; 4]%float = Some p /\
    len (captured p) <= 2 /\
    (2 < len [1; 2; 3; 4]%float ->
     len (captured p) = 2 /\ captured p = lastn 2 [1; 2; 3; 4]%float).
Proof.
  apply (history_window Exp_ref (mkConfig 2 0.9 0.3) [1; 2; 3; 4]%float).
  - cbn. lia.
  - unfold GoInt.in_range, GoInt.min_int, GoInt.max_int. cbn. lia.
Defined.

(** One ingestion during warm-up: the second value gets weight 1. *)
Lemma PEWMA_Add_two_phase_witness :
  let conf := mkConfig 3 0.9 0.3 in
  let p := mkPEWMA [10%float] conf (mkFactors 10 100 0) in
  PEWMA_alpha Exp_ref 20 p = Some (1%float, p) /\
  PEWMA_pushAndPop 20 p = Some ([10; 20]%float, p) /\
  PEWMA_Add Exp_ref 20 p
  = Some (mkPEWMA [10; 20]%float conf (mkFactors 10 100 0), p).
Proof.
  cbv zeta.
  apply (PEWMA_Add_two_phase Exp_ref
           (mkPEWMA [10%float] (mkConfig 3 0.9 0.3) (mkFactors 10 100 0))
           20%float).
  unfold GoInt.in_range, GoInt.min_int, GoInt.max_int. cbn. lia.
Defined.

(** The scenario with the reference exponential. *)
Lemma concrete_scenario_witness :
  snd (NewConfig 0.9 5 0.9 0.3) = None /\
  exists p,
    ingestAll Exp_ref (New (fst (NewConfig 0.9 5 0.9 0.3)))
      [1; 1; 1; 1; 1]%float = Some p /\
    classify Exp_ref p 1 0.01 = Some InOrdinary /\
    classify Exp_ref p 1000 0.01 = Some Outlier.
Proof.
  apply (concrete_scenario Exp_ref 0.9); reflexivity.
Defined.

(** A constant window: the mean itself is ordinary, any other number is an
    outlier. *)
Lemma zero_deviation_classification_witness :
  let p := mkPEWMA [1; 1; 1; 1; 1]%float (mkConfig 5 0.9 0.3)
             (mkFactors 1 1 0) in
  classify Exp_ref p 1 0.01 = Some InOrdinary /\
  classify Exp_ref p 1000 0.01 = Some Outlier.
Proof.
  cbv zeta.
  destruct (zero_deviation_classification Exp_ref Exp_ref_NaN Exp_ref_NegInf
              (mkConfig 5 0.9 0.3) [1; 1; 1; 1; 1]%float
              (mkPEWMA [1; 1; 1; 1; 1]%float (mkConfig 5 0.9 0.3)
                 (mkFactors 1 1 0))
              1000%float 0.01%float) as [_ Hout].
  - reflexivity.
  - cbn. lia.
  - reflexivity.
  - destruct (zero_deviation_classification Exp_ref Exp_ref_NaN Exp_ref_NegInf
                (mkConfig 5 0.9 0.3) [1; 1; 1; 1; 1]%float
                (mkPEWMA [1; 1; 1; 1; 1]%float (mkConfig 5 0.9 0.3)
                   (mkFactors 1 1 0))
                1%float 0.01%float) as [Hin _].
    + reflexivity.
    + cbn. lia.
    + reflexivity.
    + split; [apply Hin; left; reflexivity | apply Hout; reflexivity].
Defined.

(** C10, as stated, fails for a NaN value: on the processor that ingested
    [[1; 1; 1; 1; 1]] with training period 5 the deviation is zero and the
    history is full, NaN differs from the mean 1 and the threshold 0.01 is
    positive, yet [Analyze(NaN, 0.01)] is [InOrdinary]. *)
Lemma zero_deviation_nan_value :
  let p := mkPEWMA [1; 1; 1; 1; 1]%float (mkConfig 5 0.9 0.3)
             (mkFactors 1 1 0) in
  ingestAll Exp_ref (New (mkConfig 5 0.9 0.3)) [1; 1; 1; 1; 1]%float = Some p /\
  trainingPeriod (config p) <= len (captured p) /\
  (stdDeviation (pfactors p) =? 0)%float = true /\
  (nan =? s1 (pfactors p))%float = false /\
  (0 <=? 0.01)%float = true /\
  classify Exp_ref p nan 0.01 = Some InOrdinary /\
  classify Exp_ref p nan 0.01 <> Some Outlier.
Proof.
  cbv zeta. cbn [config captured pfactors trainingPeriod stdDeviation s1].
  split; [reflexivity|]. split; [unfold len; cbn; lia|].
  repeat split; try reflexivity. discriminate.
Qed.

(** ** Further facts of binary64 arithmetic *)

Module SFMore.

Lemma shr_fexp_exact_52 (m : positive) (e : Z) :
  canonical_mantissa prec emax m e = true ->
  shr_fexp prec emax (Z.pos (Pos.iter xO m 52)) (-52 + e) loc_Exact
  = (Build_shr_record (Z.pos m) false false, e).
Proof.
  unfold canonical_mantissa. intros C. apply Z.eqb_eq in C.
  unfold shr_fexp. cbn [Zdigits2]. rewrite SF.iter_xO_digits.
  replace (Z.pos (digits2_pos m) + 52 + (-52 + e))
    with (Z.pos (digits2_pos m) + e) by lia.
  rewrite C. replace (e - (-52 + e)) with 52 by lia.
  unfold shr. f_equal. lia.
Qed.

Lemma shr_fexp_canonical (m : positive) (e : Z) :
  canonical_mantissa prec emax m e = true ->
  shr_fexp prec emax (Z.pos m) e loc_Exact
  = (Build_shr_record (Z.pos m) false false, e).
Proof.
  unfold canonical_mantissa. intros C. apply Z.eqb_eq in C.
  unfold shr_fexp. cbn [Zdigits2]. rewrite C, Z.sub_diag. reflexivity.
Qed.

Lemma SFmul_one_l (x : spec_float) :
  valid_binary x = true ->
  SF64mul (S754_finite false 4503599627370496 (-52)) x = x.
Proof.
  intros V. destruct x as [s|s| |s m e]; try reflexivity.
  cbn [SpecFloat.valid_binary] in V. unfold bounded in V.
  apply andb_prop in V. destruct V as [C B].
  unfold SF64mul. cbn [SFmul xorb].
  change (Pos.mul 4503599627370496 m) with (Pos.iter xO m 52).
  unfold binary_round_aux.
  rewrite (shr_fexp_exact_52 m e C). cbn [shr_m loc_of_shr_record round_nearest_even].
  rewrite (shr_fexp_canonical m e C). cbn [shr_m].
  rewrite B. reflexivity.
Qed.

(** The sign of a rounded result is the sign given. *)
Lemma binary_round_aux_sign (s : bool) (m e : Z) (l : location) :
  has_sign s (binary_round_aux prec emax s m e l).
Proof.
  unfold binary_round_aux.
  destruct (shr_fexp prec emax m e l) as [r1 e1].
  destruct (shr_fexp prec emax _ e1 loc_Exact) as [r2 e2].
  destruct (shr_m r2); [reflexivity| |exact I].
  destruct (e2 <=? emax - prec); reflexivity.
Qed.

Lemma SFsqrt_sign (x : spec_float) :
  SF64sqrt x = S754_zero true \/ has_sign false (SF64sqrt x).
Proof.
  destruct x as [s|s| |s m e]; unfold SF64sqrt; cbn [SFsqrt].
  - destruct s; [left|right]; reflexivity.
  - right. destruct s; [exact I|reflexivity].
  - right. exact I.
  - right. destruct s; [exact I|].
    destruct (SFsqrt_core_binary prec emax (Z.pos m) e) as [[mz ez] lz].
    apply binary_round_aux_sign.
Qed.

Lemma SFltb_zero_of_sign (x : spec_float) :
  x = S754_zero true \/ has_sign false x ->
  SFltb x (S754_zero false) = false.
Proof.
  intros [->|H]; [reflexivity|].
  destruct x as [s|s| |s m e]; cbn in H; subst; reflexivity.
Qed.

Lemma SFmul_self_sign (x : spec_float) : has_sign false (SF64mul x x).
Proof.
  destruct x as [s|s| |s m e]; unfold SF64mul; cbn [SFmul has_sign];
    try (destruct s; reflexivity); try exact I.
  replace (xorb s s) with false by (destruct s; reflexivity).
  apply binary_round_aux_sign.
Qed.

Lemma SFadd_zero_l (x : spec_float) :
  not_neg_zero x -> SF64add (S754_zero false) x = x.
Proof.
  unfold not_neg_zero.
  destruct x as [s|s| |s m e]; intros H; try reflexivity.
  destruct s; [contradiction|reflexivity].
Qed.

Lemma SFadd_zero_r (x : spec_float) (s : bool) :
  not_neg_zero x -> SF64add x (S754_zero s) = x.
Proof.
  unfold not_neg_zero.
  destruct x as [sx|sx| |sx m e]; intros H; try reflexivity.
  destruct sx; [contradiction|]. destruct s; reflexivity.
Qed.

Lemma SFmul_zero_l (x : spec_float) :
  finite_num x -> exists s, SF64mul (S754_zero false) x = S754_zero s.
Proof.
  destruct x as [s|s| |s m e]; intros H; try contradiction;
    eexists; reflexivity.
Qed.

Lemma SFsub_self (x : spec_float) :
  finite_num x -> SF64sub x x = S754_zero false.
Proof.
  destruct x as [s|s| |s m e]; intros H; try contradiction.
  - destruct s; reflexivity.
  - unfold SF64sub. cbn [SFsub]. rewrite Z.sub_diag. reflexivity.
Qed.

Lemma SFcompare_None (x y : spec_float) :
  SFcompare x y = None <-> x = S754_nan \/ y = S754_nan.
Proof.
  destruct x as [sx|sx| |sx mx ex], y as [sy|sy| |sy my ey];
    cbn [SFcompare]; split; intros H;
    try discriminate H; try reflexivity; auto;
    destruct H as [H|H]; discriminate H.
Qed.

End SFMore.

Module F64More.

Lemma SFeqb_refl (x : spec_float) : x <> S754_nan -> SFeqb x x = true.
Proof.
  destruct x as [s|s| |s m e]; intros H; try reflexivity.
  - destruct s; reflexivity.
  - contradiction.
  - unfold SFeqb. rewrite SF.SFcompare_same. reflexivity.
Qed.

Lemma is_nan_spec (x : float) : is_nan x = true <-> Prim2SF x = S754_nan.
Proof.
  unfold is_nan. rewrite eqb_spec. split.
  - intros H. destruct (Prim2SF x) as [s|s| |s m e] eqn:E; try reflexivity;
      rewrite SFeqb_refl in H; discriminate.
  - intros ->. reflexivity.
Qed.

Lemma is_nan_true (x : float) : is_nan x = true -> x = nan.
Proof. intros H. apply F64.nan_of_spec, is_nan_spec, H. Qed.

Lemma is_finite_spec (x : float) :
  is_finite x = true -> finite_num (Prim2SF x).
Proof.
  unfold is_finite, is_infinity. intros H.
  apply negb_true_iff, orb_false_iff in H. destruct H as [Hn Hi].
  rewrite eqb_spec, abs_spec in Hi.
  change (Prim2SF infinity) with (S754_infinity false) in Hi.
  destruct (Prim2SF x) as [s|s| |s m e] eqn:E; try exact I.
  - discriminate Hi.
  - apply F64.is_nan_false_spec in Hn. contradiction.
Qed.

Lemma mul_one_l (x : float) : (1 * x)%float = x.
Proof.
  apply Prim2SF_inj. rewrite mul_spec.
  change (Prim2SF 1) with (S754_finite false 4503599627370496 (-52)).
  apply SFMore.SFmul_one_l, Prim2SF_valid.
Qed.

Lemma mul_self_not_neg_zero (x : float) : not_neg_zero (Prim2SF (x * x)).
Proof.
  rewrite mul_spec. pose proof (SFMore.SFmul_self_sign (Prim2SF x)) as H.
  intros E. rewrite E in H. discriminate H.
Qed.

Lemma add_zero_l (x : float) :
  not_neg_zero (Prim2SF x) -> (0 + x)%float = x.
Proof.
  intros H. apply Prim2SF_inj. rewrite add_spec.
  apply SFMore.SFadd_zero_l, H.
Qed.

Lemma add_zero_l_not_neg_zero (x : float) :
  not_neg_zero (Prim2SF (0 + x)).
Proof.
  rewrite add_spec. change (Prim2SF 0) with (S754_zero false).
  destruct (Prim2SF x) as [s|s| |s m e]; try discriminate.
  destruct s; discriminate.
Qed.

(** [0 + x] is [x], except that it is [+0] for [x = -0]. *)
Lemma add_zero_l_cases (x : float) :
  (0 + x)%float = x \/ (x = neg_zero /\ (0 + x)%float = 0%float).
Proof.
  destruct (Prim2SF x) as [[]|s| |s m e] eqn:E;
    try (left; apply add_zero_l; rewrite E; discriminate).
  right. assert (x = neg_zero) by (apply Prim2SF_inj; rewrite E; reflexivity).
  subst x. split; reflexivity.
Qed.

Lemma add_zero_l_square (x : float) :
  ((0 + x) * (0 + x))%float = (x * x)%float.
Proof.
  destruct (add_zero_l_cases x) as [->|[-> ->]]; reflexivity.
Qed.

Lemma eqb_add_zero_l (x : float) :
  is_finite x = true -> (x =? 0 + x)%float = true.
Proof.
  intros H. destruct (add_zero_l_cases x) as [->|[-> ->]]; [|reflexivity].
  rewrite eqb_spec. apply SFeqb_refl.
  apply is_finite_spec in H. intros E. rewrite E in H. exact H.
Qed.

Lemma sub_self (x : float) : is_finite x = true -> (x - x)%float = 0%float.
Proof.
  intros H. apply Prim2SF_inj. rewrite sub_spec.
  apply SFMore.SFsub_self, is_finite_spec, H.
Qed.

Lemma mul_zero_l (x : float) :
  is_finite x = true -> exists s, Prim2SF (0 * x) = S754_zero s.
Proof.
  intros H. rewrite mul_spec. apply SFMore.SFmul_zero_l, is_finite_spec, H.
Qed.

Lemma add_signed_zero_r (x z : float) (s : bool) :
  not_neg_zero (Prim2SF x) -> Prim2SF z = S754_zero s -> (x + z)%float = x.
Proof.
  intros H Hz. apply Prim2SF_inj. rewrite add_spec, Hz.
  apply SFMore.SFadd_zero_r, H.
Qed.

Lemma mul_nan_r (x : float) : (x * nan)%float = nan.
Proof.
  apply F64.nan_of_spec. rewrite mul_spec.
  change (Prim2SF nan) with S754_nan. destruct (Prim2SF x); reflexivity.
Qed.

Lemma mul_nan_l (x : float) : (nan * x)%float = nan.
Proof. apply F64.nan_of_spec. rewrite mul_spec. reflexivity. Qed.

Lemma add_nan_l (x : float) : (nan + x)%float = nan.
Proof. apply F64.nan_of_spec. rewrite add_spec. reflexivity. Qed.

Lemma sub_nan_r (x : float) : (x - nan)%float = nan.
Proof.
  apply F64.nan_of_spec. rewrite sub_spec.
  change (Prim2SF nan) with S754_nan. destruct (Prim2SF x); reflexivity.
Qed.

Lemma div_nan_l (x : float) : (nan / x)%float = nan.
Proof. apply F64.nan_of_spec. rewrite div_spec. reflexivity. Qed.

Lemma mul_zero_r (x : float) :
  is_finite x = true -> exists s, Prim2SF (x * 0) = S754_zero s.
Proof.
  intros H. apply F64More.is_finite_spec in H. rewrite mul_spec.
  change (Prim2SF 0) with (S754_zero false).
  destruct (Prim2SF x); try contradiction; eexists; reflexivity.
Qed.

Lemma one_sub_signed_zero (z : float) (s : bool) :
  Prim2SF z = S754_zero s -> (1 - z)%float = 1%float.
Proof.
  intros H. apply Prim2SF_inj. rewrite sub_spec, H. reflexivity.
Qed.

(** A comparison is false exactly when the opposite strict or large one
    holds, or an operand is NaN. *)
Lemma leb_false_cases (x y : float) :
  (x <=? y)%float = false ->
  (y <? x)%float = true \/ is_nan x = true \/ is_nan y = true.
Proof.
  rewrite leb_spec, ltb_spec, !F64More.is_nan_spec. unfold SFleb, SFltb.
  rewrite (SF.SFcompare_swap (Prim2SF x) (Prim2SF y)).
  destruct (SFcompare (Prim2SF x) (Prim2SF y)) as [[]|] eqn:E;
    cbn; try discriminate; auto.
  intros _. right. apply SFMore.SFcompare_None, E.
Qed.

Lemma ltb_false_cases (x y : float) :
  (x <? y)%float = false ->
  (y <=? x)%float = true \/ is_nan x = true \/ is_nan y = true.
Proof.
  rewrite leb_spec, ltb_spec, !F64More.is_nan_spec. unfold SFleb, SFltb.
  rewrite (SF.SFcompare_swap (Prim2SF x) (Prim2SF y)).
  destruct (SFcompare (Prim2SF x) (Prim2SF y)) as [[]|] eqn:E;
    cbn; try discriminate; auto.
  intros _. right. apply SFMore.SFcompare_None, E.
Qed.

Lemma sqrt_not_negative (x : float) : (PrimFloat.sqrt x <? 0)%float = false.
Proof.
  rewrite ltb_spec, sqrt_spec. change (Prim2SF 0) with (S754_zero false).
  apply SFMore.SFltb_zero_of_sign, SFMore.SFsqrt_sign.
Qed.

End F64More.

(** ** Further properties of the package *)

(** *** Statistics under the warm-up weights *)

Lemma factors_New_first (v : Value) :
  regular v ->
  factors_New factors_zero 0 v = mkFactors (0 + v) (v * v) 0.
Proof.
  intros [Fv Fvv]. unfold factors_New, Value_square, Value_sqrt.
  cbn [s1 s2 factors_zero].
  replace (0 * 0)%float with 0%float by reflexivity.
  replace (1 - 0)%float with 1%float by reflexivity.
  rewrite !F64More.mul_one_l.
  rewrite (F64More.add_zero_l (v * v)) by apply F64More.mul_self_not_neg_zero.
  rewrite F64More.add_zero_l_square, (F64More.sub_self _ Fvv).
  reflexivity.
Qed.

Lemma steady_first (v : Value) :
  regular v -> steady (mkFactors (0 + v) (v * v) 0).
Proof.
  intros [Fv Fvv]. unfold steady. cbn [s1 s2 stdDeviation].
  split; [apply F64More.add_zero_l_not_neg_zero|].
  split; [apply F64More.mul_self_not_neg_zero|].
  rewrite F64More.add_zero_l_square, (F64More.sub_self _ Fvv). reflexivity.
Qed.

Lemma factors_New_keep (f : factors) (v : Value) :
  steady f -> regular v -> factors_New f 1 v = f.
Proof.
  intros (H1 & H2 & Hd) [Fv Fvv]. destruct f as [m q d].
  cbn [s1 s2 stdDeviation] in *.
  unfold factors_New, Value_square, Value_sqrt. cbn [s1 s2].
  replace (1 - 1)%float with 0%float by reflexivity.
  rewrite !F64More.mul_one_l.
  destruct (F64More.mul_zero_l v Fv) as [sa Ha].
  destruct (F64More.mul_zero_l (v * v) Fvv) as [sb Hb].
  rewrite (F64More.add_signed_zero_r m _ sa H1 Ha).
  rewrite (F64More.add_signed_zero_r q _ sb H2 Hb).
  rewrite <- Hd. reflexivity.
Qed.

Section Further.

Variable Exp : float -> float.
Variable adapt : float.

Lemma window_within (T : Z) (c : list Value) (v : Value) :
  len c < T -> window T c v = c ++ [v].
Proof.
  unfold window, len. rewrite length_app. cbn [List.length]. intros H.
  destruct (Z.gtb_spec (Z.of_nat (List.length c + 1)) T); [lia|reflexivity].
Qed.

Lemma window_full (T : Z) (c : list Value) (v : Value) :
  T <= len c -> T <= len (window T c v).
Proof.
  unfold window, len. rewrite length_app. cbn [List.length]. intros H.
  destruct (Z.gtb_spec (Z.of_nat (List.length c + 1)) T).
  - rewrite length_skipn, length_app. cbn [List.length]. lia.
  - rewrite length_app. cbn [List.length]. lia.
Qed.

Lemma ingest_first (conf : Config) (v : Value) :
  1 <= trainingPeriod conf <= GoInt.max_int ->
  ingest Exp (New conf) v
  = Some (mkPEWMA [v] conf (factors_New factors_zero 0 v)).
Proof.
  intros HT.
  rewrite (ingest_spec Exp (New conf) v 0%float).
  - cbn [New config captured pfactors]. rewrite window_within by (cbn; lia).
    reflexivity.
  - apply (PEWMA_alpha_warmup Exp (New conf) v);
      cbn [New config captured]; change (len (@nil Value)) with 0; lia.
Qed.

(** X1. The first observation.  On a fresh processor with a training
    period of at least 1, ingesting a finite value whose square does not
    overflow gives statistics with a mean equal to the value, a second moment
    equal to its square and a deviation of zero. *)
Theorem first_observation (conf : Config) (v : Value) :
  1 <= trainingPeriod conf ->
  GoInt.in_range (trainingPeriod conf) ->
  regular v ->
  exists p,
    ingest Exp (New conf) v = Some p /\
    captured p = [v] /\
    (v =? s1 (pfactors p))%float = true /\
    s2 (pfactors p) = (v * v)%float /\
    stdDeviation (pfactors p) = 0%float.
Proof.
  intros H1 [_ HT] Hv. eexists. split; [apply ingest_first; lia|].
  cbn [captured pfactors]. rewrite (factors_New_first v Hv).
  cbn [s1 s2 stdDeviation]. repeat split.
  apply F64More.eqb_add_zero_l, Hv.
Qed.

Lemma ingestAll_steady (vs : list Value) :
  forall p,
    steady (pfactors p) ->
    1 <= len (captured p) ->
    len (captured p) + len vs <= trainingPeriod (config p) ->
    trainingPeriod (config p) <= GoInt.max_int ->
    Forall regular vs ->
    ingestAll Exp p vs
    = Some (mkPEWMA (captured p ++ vs) (config p) (pfactors p)).
Proof.
  induction vs as [|v vs IH]; intros p Hs Hc Hl HT Hvs.
  - rewrite app_nil_r. destruct p; reflexivity.
  - inversion Hvs as [|? ? Hv Hvs']; subst.
    assert (Hlen : len (v :: vs) = 1 + len vs)
      by (unfold len; cbn [List.length]; lia).
    assert (H0 : 0 <= len vs) by (unfold len; lia).
    pose proof (PEWMA_alpha_warmup Exp p v) as Ha.
    destruct (Z.eqb_spec (len (captured p)) 0) as [E|_]; [lia|].
    cbn [ingestAll]. rewrite (ingest_spec Exp p v 1%float) by (apply Ha; lia).
    rewrite window_within by lia. rewrite (factors_New_keep _ v Hs Hv).
    rewrite IH; cbn [captured config pfactors]; try assumption.
    + rewrite <- app_assoc. reflexivity.
    + unfold len. rewrite length_app. cbn [List.length]. lia.
    + unfold len in *. rewrite length_app. cbn [List.length]. lia.
Qed.

(** X2. Warm-up keeps the first statistics.  While the history is within the
    training period, every finite value (with a finite square) after the first
    is ingested with weight 1: the statistics after the whole warm-up stream
    are those after its first value, and the deviation is zero. *)
Theorem warmup_statistics_frozen (conf : Config) (v1 : Value)
    (vs : list Value) :
  GoInt.in_range (trainingPeriod conf) ->
  len (v1 :: vs) <= trainingPeriod conf ->
  regular v1 -> Forall regular vs ->
  exists p1 p,
    ingest Exp (New conf) v1 = Some p1 /\
    ingestAll Exp (New conf) (v1 :: vs) = Some p /\
    captured p = v1 :: vs /\
    pfactors p = pfactors p1 /\
    stdDeviation (pfactors p) = 0%float.
Proof.
  intros [_ HT] Hl H1 Hvs.
  assert (Hlen : len (v1 :: vs) = 1 + len vs)
    by (unfold len; cbn [List.length]; lia).
  assert (H0 : 0 <= len vs) by (unfold len; lia).
  eexists. eexists. split; [apply ingest_first; lia|].
  cbn [ingestAll]. rewrite ingest_first by lia.
  rewrite ingestAll_steady; cbn [captured config pfactors];
    try assumption; try (cbn; lia).
  - repeat split. rewrite (factors_New_first v1 H1). reflexivity.
  - rewrite (factors_New_first v1 H1). apply steady_first, H1.
  - change (len [v1]) with 1. lia.
Qed.

Lemma ingestAll_nonpositive (vs : list Value) :
  forall p,
    captured p = [] -> trainingPeriod (config p) <= 0 ->
    exists p',
      ingestAll Exp p vs = Some p' /\
      captured p' = [] /\ config p' = config p.
Proof.
  induction vs as [|v vs IH]; intros p Hc HT.
  - exists p. repeat split. exact Hc.
  - cbn [ingestAll].
    erewrite ingest_spec
      by (apply PEWMA_alpha_trained; rewrite Hc; exact HT).
    set (p1 := mkPEWMA _ _ _).
    destruct (IH p1) as (p' & Hrun & Hc' & Hconf).
    + cbn [p1 captured]. rewrite Hc. unfold window.
      destruct (Z.gtb_spec (len ([] ++ [v])) (trainingPeriod (config p)));
        [reflexivity|]. cbn in *. lia.
    + exact HT.
    + exists p'. repeat split; assumption.
Qed.

(** X4. A training period of zero or less.  Every ingestion returns, the
    history stays empty, and [Analyze] never answers [InTraining]. *)
Theorem nonpositive_period (conf : Config) (vs : list Value) :
  trainingPeriod conf <= 0 ->
  exists p,
    ingestAll Exp (New conf) vs = Some p /\
    captured p = [] /\
    forall v threshold, classify Exp p v threshold <> Some InTraining.
Proof.
  intros HT.
  destruct (ingestAll_nonpositive vs (New conf)) as (p & Hrun & Hc & Hconf);
    [reflexivity|exact HT|].
  exists p. split; [exact Hrun|]. split; [exact Hc|].
  intros v th. unfold classify. rewrite PEWMA_Analyze_spec.
  rewrite Hc, Hconf. cbn [option_map fst New config].
  destruct (Z.ltb_spec (len (@nil Value)) (trainingPeriod conf)) as [H|_];
    [cbn in H; lia|].
  destruct (factors_pt Exp (pfactors p) v <=? th)%float; discriminate.
Qed.

(** X3. Warm-up status.  For every training period, after ingesting a stream
    into a fresh processor (which always returns, with the configuration
    kept) [Analyze] answers [InTraining], whatever the value and the
    threshold, exactly when the stream is shorter than the training period. *)
Theorem warmup_status (conf : Config) (vs : list Value) :
  GoInt.in_range (trainingPeriod conf) ->
  exists p,
    ingestAll Exp (New conf) vs = Some p /\
    config p = conf /\
    forall v threshold,
      classify Exp p v threshold = Some InTraining
      <-> len vs < trainingPeriod conf.
Proof.
  intros [_ HT].
  assert (H0 : 0 <= len vs) by (unfold len; lia).
  assert (Hp : exists p, ingestAll Exp (New conf) vs = Some p /\
                         config p = conf /\
                         (len (captured p) < trainingPeriod conf
                          <-> len vs < trainingPeriod conf)).
  { destruct (Z.le_gt_cases 0 (trainingPeriod conf)) as [Hpos|Hneg].
    - destruct (ingestAll_window Exp vs (New conf))
        as (p & Hrun & Hconf & Hcap);
        [cbn [New config]; lia | cbn; lia |].
      exists p. split; [exact Hrun|]. split; [exact Hconf|].
      rewrite Hcap. cbn [New config captured app]. unfold len.
      rewrite lastn_length. unfold len in *. lia.
    - destruct (ingestAll_nonpositive vs (New conf))
        as (p & Hrun & Hc & Hconf); [reflexivity|cbn [New config]; lia|].
      exists p. split; [exact Hrun|]. split; [exact Hconf|].
      rewrite Hc. cbn. lia. }
  destruct Hp as (p & Hrun & Hconf & Hiff).
  exists p. split; [exact Hrun|]. split; [exact Hconf|]. intros v th.
  unfold classify. rewrite PEWMA_Analyze_spec. cbn [option_map fst].
  rewrite Hconf.
  destruct (Z.ltb_spec (len (captured p)) (trainingPeriod conf)) as [H|H].
  - split; [intros _; apply Hiff, H|reflexivity].
  - split; [|intros H'; apply Hiff in H'; lia].
    destruct (factors_pt Exp (pfactors p) v <=? th)%float; discriminate.
Qed.

(** X5. The standard deviation of a processor reached from a fresh one is
    never negative: it is zero, positive or NaN. *)
Theorem stdDeviation_not_negative (conf : Config) (vs : list Value)
    (p : PEWMA) :
  ingestAll Exp (New conf) vs = Some p ->
  (stdDeviation (pfactors p) <? 0)%float = false.
Proof.
  assert (G : forall ws q q',
             (stdDeviation (pfactors q) <? 0)%float = false ->
             ingestAll Exp q ws = Some q' ->
             (stdDeviation (pfactors q') <? 0)%float = false).
  { induction ws as [|w ws IH]; intros q q' Hq H; cbn [ingestAll] in H.
    - injection H as <-. exact Hq.
    - destruct (ingest Exp q w) as [q1|] eqn:E; [|discriminate H].
      apply (IH q1 q'); [|exact H].
      destruct (ingest_factors Exp _ _ _ E) as [a ->].
      apply F64More.sqrt_not_negative. }
  apply G. reflexivity.
Qed.

(** X6. What [NewConfig] accepts.  It returns no error exactly when [alpha0]
    is NaN or strictly between 0 and 1, and [beta] is NaN or at least 0 and
    below 1: a NaN passes both checks. *)
Theorem NewConfig_accepts (t : Z) (alpha0 beta : float) :
  snd (NewConfig adapt t alpha0 beta) = None
  <-> (is_nan alpha0 = true \/
       ((0 <? alpha0)%float = true /\ (alpha0 <? 1)%float = true)) /\
      (is_nan beta = true \/
       ((0 <=? beta)%float = true /\ (beta <? 1)%float = true)).
Proof.
  unfold NewConfig, errors_New. split.
  - destruct (alpha0 <=? 0)%float eqn:A0; [discriminate|].
    destruct (1 <=? alpha0)%float eqn:A1; [discriminate|].
    destruct (beta <? 0)%float eqn:B0; [discriminate|].
    destruct (1 <=? beta)%float eqn:B1; [discriminate|].
    intros _.
    destruct (F64More.leb_false_cases _ _ A0) as [Ha0|[Ha0|Ha0]];
      destruct (F64More.leb_false_cases _ _ A1) as [Ha1|[Ha1|Ha1]];
      destruct (F64More.ltb_false_cases _ _ B0) as [Hb0|[Hb0|Hb0]];
      destruct (F64More.leb_false_cases _ _ B1) as [Hb1|[Hb1|Hb1]];
      try discriminate; auto.
  - intros [[Ha|[A0 A1]] [Hb|[B0 B1]]];
      try (apply F64More.is_nan_true in Ha; subst alpha0);
      try (apply F64More.is_nan_true in Hb; subst beta);
      try rewrite (F64.ltb_leb_swap _ _ A0), (F64.ltb_leb_swap _ _ A1);
      try rewrite (F64.leb_ltb_swap _ _ B0), (F64.ltb_leb_swap _ _ B1);
      reflexivity.
Qed.

Lemma factors_New_nan_mean (f : factors) (a v : Value) :
  is_nan (s1 f) = true -> is_nan (s1 (factors_New f a v)) = true.
Proof.
  intros H. apply F64More.is_nan_true in H. unfold factors_New.
  cbn [s1]. rewrite H, F64More.mul_nan_r, F64More.add_nan_l. reflexivity.
Qed.

Lemma factors_New_nan_weight (f : factors) (v : Value) :
  is_nan (s1 (factors_New f nan v)) = true.
Proof.
  unfold factors_New. cbn [s1].
  rewrite F64More.mul_nan_l, F64More.add_nan_l. reflexivity.
Qed.

Section FurtherSpecialCases.

Hypothesis Exp_NaN : Exp nan = nan.
Hypothesis Exp_NegInf : Exp neg_infinity = zero.

Lemma factors_pt_nan_mean (f : factors) (v : Value) :
  is_nan (s1 f) = true -> factors_pt Exp f v = nan.
Proof.
  intros H. apply F64More.is_nan_true in H. unfold factors_pt, factors_zt.
  rewrite H, F64More.sub_nan_r, F64More.div_nan_l.
  replace (- (nan * nan) / 2)%float with nan by reflexivity.
  rewrite Exp_NaN. reflexivity.
Qed.

Lemma ingestAll_nan_mean (vs : list Value) :
  forall p,
    is_nan (s1 (pfactors p)) = true ->
    trainingPeriod (config p) <= len (captured p) ->
    exists p',
      ingestAll Exp p vs = Some p' /\
      is_nan (s1 (pfactors p')) = true /\
      forall v threshold, classify Exp p' v threshold = Some InOrdinary.
Proof.
  induction vs as [|w ws IH]; intros p Hn Hl.
  - exists p. split; [reflexivity|]. split; [exact Hn|].
    intros v th. unfold classify. rewrite PEWMA_Analyze_spec.
    cbn [option_map fst].
    destruct (Z.ltb_spec (len (captured p)) (trainingPeriod (config p)));
      [lia|].
    rewrite (factors_pt_nan_mean _ v Hn), F64.leb_nan_l. reflexivity.
  - cbn [ingestAll].
    erewrite ingest_spec by (apply PEWMA_alpha_trained; exact Hl).
    apply IH; cbn [pfactors captured config].
    + apply factors_New_nan_mean, Hn.
    + apply window_full, Hl.
Qed.

(** X7. A NaN mean is absorbing.  Once the mean is NaN and the history is
    full, every further stream of ingestions returns with a NaN mean, and
    [Analyze] answers [InOrdinary] for every value and threshold. *)
Theorem nan_mean_absorbing (p : PEWMA) (vs : list Value) :
  is_nan (s1 (pfactors p)) = true ->
  trainingPeriod (config p) <= len (captured p) ->
  exists p',
    ingestAll Exp p vs = Some p' /\
    is_nan (s1 (pfactors p')) = true /\
    forall v threshold, classify Exp p' v threshold = Some InOrdinary.
Proof. intros Hn Hl. apply ingestAll_nan_mean; assumption. Qed.

(** X8. After warm-up, with a deviation of zero, ingesting a value equal to
    the mean makes the weight NaN and with it the mean: from then on, whatever
    is ingested, [Analyze] answers [InOrdinary] for every value and
    threshold. *)
Theorem mean_repeated_blinds (p : PEWMA) (v : Value) (vs : list Value) :
  trainingPeriod (config p) <= len (captured p) ->
  (stdDeviation (pfactors p) =? 0)%float = true ->
  (v =? s1 (pfactors p))%float = true \/ v = s1 (pfactors p) ->
  exists p',
    ingestAll Exp p (v :: vs) = Some p' /\
    is_nan (s1 (pfactors p')) = true /\
    forall w threshold, classify Exp p' w threshold = Some InOrdinary.
Proof.
  intros Hl Hd Hv. cbn [ingestAll].
  erewrite ingest_spec by (apply PEWMA_alpha_trained; exact Hl).
  rewrite (factors_pt_equal Exp Exp_NaN _ _ Hd Hv).
  rewrite F64More.mul_nan_r, F64More.sub_nan_r, F64More.mul_nan_l.
  apply ingestAll_nan_mean; cbn [pfactors captured config].
  - apply factors_New_nan_weight.
  - apply window_full, Hl.
Qed.

(** X9. After warm-up, with a deviation of zero, a value that is not NaN and
    differs from the mean has density zero, and for a finite [betaWeight] the
    weight [alpha] returns is exactly [alpha0Weight]. *)
Theorem outlier_weight_is_baseline (conf : Config) (vs : list Value)
    (p : PEWMA) (v : Value) :
  ingestAll Exp (New conf) vs = Some p ->
  trainingPeriod (config p) <= len (captured p) ->
  (stdDeviation (pfactors p) =? 0)%float = true ->
  is_nan v = false -> (v =? s1 (pfactors p))%float = false ->
  is_finite (betaWeight (config p)) = true ->
  PEWMA_alpha Exp v p = Some (alpha0Weight (config p), p).
Proof.
  intros Hrun Hl Hd Nv Hv Hb.
  assert (Hm : mean_defined (pfactors p)).
  { apply (ingestAll_mean_defined Exp vs (New conf) p); [|exact Hrun].
    intros _. reflexivity. }
  rewrite (PEWMA_alpha_trained Exp p v Hl).
  rewrite (factors_pt_distinct Exp Exp_NegInf _ _ Hd Nv (Hm Hd) Hv).
  destruct (F64More.mul_zero_r _ Hb) as [s Hs].
  change zero with 0%float.
  rewrite (F64More.one_sub_signed_zero _ s Hs), F64More.mul_one_l.
  reflexivity.
Qed.

End FurtherSpecialCases.

End Further.

(** ** The further theorems at concrete inputs *)

Lemma first_observation_witness :
  exists p,
    ingest Exp_ref (New (mkConfig 3 0.9 0.3)) 10 = Some p /\
    captured p = [10%float] /\
    (10 =? s1 (pfactors p))%float = true /\
    s2 (pfactors p) = (10 * 10)%float /\
    stdDeviation (pfactors p) = 0%float.
Proof.
  apply (first_observation Exp_ref (mkConfig 3 0.9 0.3) 10%float).
  - cbn. lia.
  - unfold GoInt.in_range, GoInt.min_int, GoInt.max_int. cbn. lia.
  - split; reflexivity.
Defined.

Lemma warmup_statistics_frozen_witness :
  exists p1 p,
    ingest Exp_ref (New (mkConfig 3 0.9 0.3)) 10 = Some p1 /\
    ingestAll Exp_ref (New (mkConfig 3 0.9 0.3)) [10; 20; 30]%float = Some p /\
    captured p = [10; 20; 30]%float /\
    pfactors p = pfactors p1 /\
    stdDeviation (pfactors p) = 0%float.
Proof.
  apply (warmup_statistics_frozen Exp_ref (mkConfig 3 0.9 0.3) 10%float
           [20; 30]%float).
  - unfold GoInt.in_range, GoInt.min_int, GoInt.max_int. cbn. lia.
  - unfold len. cbn. lia.
  - split; reflexivity.
  - repeat constructor.
Defined.

Lemma warmup_status_witness :
  exists p,
    ingestAll Exp_ref (New (mkConfig 3 0.9 0.3)) [10; 20]%float = Some p /\
    config p = mkConfig 3 0.9 0.3 /\
    forall v threshold,
      classify Exp_ref p v threshold = Some InTraining
      <-> len [10; 20]%float < 3.
Proof.
  apply (warmup_status Exp_ref (mkConfig 3 0.9 0.3) [10; 20]%float).
  unfold GoInt.in_range, GoInt.min_int, GoInt.max_int. cbn. lia.
Defined.

Lemma nonpositive_period_witness :
  exists p,
    ingestAll Exp_ref (New (mkConfig 0 0.9 0.3)) [1; 2]%float = Some p /\
    captured p = [] /\
    forall v threshold, classify Exp_ref p v threshold <> Some InTraining.
Proof.
  apply (nonpositive_period Exp_ref (mkConfig 0 0.9 0.3) [1; 2]%float).
  cbn. lia.
Defined.

Lemma stdDeviation_not_negative_witness :
  (stdDeviation (factors_New (mkFactors 1 1 0) 0.9 2) <? 0)%float = false.
Proof.
  apply (stdDeviation_not_negative Exp_ref (mkConfig 1 0.9 0.3) [1; 2]%float
           (mkPEWMA [2%float] (mkConfig 1 0.9 0.3)
              (factors_New (mkFactors 1 1 0) 0.9 2))).
  reflexivity.
Defined.

Lemma nan_mean_absorbing_witness :
  exists p',
    ingestAll Exp_ref
      (mkPEWMA [1%float] (mkConfig 1 0.9 0.3) (mkFactors nan nan nan))
      [1; 2]%float = Some p' /\
    is_nan (s1 (pfactors p')) = true /\
    forall v threshold, classify Exp_ref p' v threshold = Some InOrdinary.
Proof.
  apply (nan_mean_absorbing Exp_ref Exp_ref_NaN
           (mkPEWMA [1%float] (mkConfig 1 0.9 0.3) (mkFactors nan nan nan))
           [1; 2]%float).
  - reflexivity.
  - unfold len. cbn. lia.
Defined.

Lemma mean_repeated_blinds_witness :
  exists p',
    ingestAll Exp_ref
      (mkPEWMA [1; 1; 1; 1; 1]%float (mkConfig 5 0.9 0.3) (mkFactors 1 1 0))
      [1; 1000]%float = Some p' /\
    is_nan (s1 (pfactors p')) = true /\
    forall w threshold, classify Exp_ref p' w threshold = Some InOrdinary.
Proof.
  apply (mean_repeated_blinds Exp_ref Exp_ref_NaN
           (mkPEWMA [1; 1; 1; 1; 1]%float (mkConfig 5 0.9 0.3)
              (mkFactors 1 1 0))
           1%float [1000%float]).
  - unfold len. cbn. lia.
  - reflexivity.
  - left. reflexivity.
Defined.

Lemma outlier_weight_is_baseline_witness :
  let p := mkPEWMA [1; 1; 1; 1; 1]%float (mkConfig 5 0.9 0.3)
             (mkFactors 1 1 0) in
  PEWMA_alpha Exp_ref 1000 p = Some (0.9%float, p).
Proof.
  cbv zeta.
  apply (outlier_weight_is_baseline Exp_ref Exp_ref_NegInf
           (mkConfig 5 0.9 0.3) [1; 1; 1; 1; 1]%float
           (mkPEWMA [1; 1; 1; 1; 1]%float (mkConfig 5 0.9 0.3)
              (mkFactors 1 1 0))
           1000%float); reflexivity.
Defined.
